(** * LDAPEntry (src/entry.cc): attribute change tracking and Sync

    A shallow embedding of [ldap_client::LDAPEntry].  The three member maps
    ([_data], [_added], [_removed]) are [std::map]s keyed by [std::string];
    they are modelled as association lists kept in strictly increasing key
    order, which is the order a [std::map] iterator visits them.  Methods
    that mutate [this] take the entry and return the updated entry. *)

From Stdlib Require Import String Ascii List Bool ZArith Lia OrderedTypeEx.
Import ListNotations.
Open Scope string_scope.
Open Scope list_scope.

(** ** std::map<std::string, V> *)

Module StdMap.

Section WithValue.
Context {V : Type}.

Definition t : Type := list (string * V).

Definition empty (m : t) : bool :=
  match m with [] => true | _ :: _ => false end.

(** [m.find(k)]: [None] stands for [m.end()]. *)
Fixpoint find (k : string) (m : t) : option V :=
  match m with
  | [] => None
  | (k', v) :: m' =>
      match String.compare k k' with
      | Lt => None
      | Eq => Some v
      | Gt => find k m'
      end
  end.

(** [m.count(k)] is 0 or 1. *)
Definition count (k : string) (m : t) : nat :=
  match find k m with Some _ => 1 | None => 0 end.

(** Assignment through the reference [m[k]]: [m[k] = v]. *)
Fixpoint store (k : string) (v : V) (m : t) : t :=
  match m with
  | [] => [(k, v)]
  | (k', v') :: m' =>
      match String.compare k k' with
      | Lt => (k, v) :: m
      | Eq => (k, v) :: m'
      | Gt => (k', v') :: store k v m'
      end
  end.

(** [m[k]] read: a missing key is inserted with the value-initialised
    [dflt]; the map after the access and the value referred to. *)
Fixpoint subscript (dflt : V) (k : string) (m : t) : t * V :=
  match m with
  | [] => ([(k, dflt)], dflt)
  | (k', v') :: m' =>
      match String.compare k k' with
      | Lt => ((k, dflt) :: m, dflt)
      | Eq => (m, v')
      | Gt => let (m'', v) := subscript dflt k m' in ((k', v') :: m'', v)
      end
  end.

(** [m.erase(k)]. *)
Fixpoint erase (k : string) (m : t) : t :=
  match m with
  | [] => []
  | (k', v') :: m' =>
      match String.compare k k' with
      | Lt => m
      | Eq => m'
      | Gt => (k', v') :: erase k m'
      end
  end.

(** Keys in iteration order ([begin()] to [end()]). *)
Definition keys (m : t) : list string := map fst m.

Definition lower_bound (k : string) (m : t) : bool :=
  forallb (fun kv => String.ltb k (fst kv)) m.

(** The ordering invariant of the container. *)
Fixpoint sorted (m : t) : bool :=
  match m with
  | [] => true
  | (k, _) :: m' => lower_bound k m' && sorted m'
  end.

End WithValue.

Arguments t : clear implicits.

End StdMap.

(** ** namespace ldap_client *)

Module ldap_client.
Import StdMap.

Definition k_NewItemsString : string := "All items in this file are new.".

(** [s.c_str()] read as a C string (by [strdup], or as a [const char*]
    argument without a length): the bytes before the first NUL. *)
Fixpoint c_str (s : string) : string :=
  match s with
  | EmptyString => EmptyString
  | String c s' => if Ascii.eqb c Ascii.zero then EmptyString else String c (c_str s')
  end.

(** [SearchableVector<std::string>*]: [None] is the null pointer, [Some l]
    an owned heap vector.  Every vector is allocated by a [new] whose
    result is stored in exactly one map slot, so no two slots alias. *)
Definition ptr : Type := option (list string).

Record LDAPEntry : Type := {
  _dn : string;
  _isnew : bool;
  _data : StdMap.t (list string);
  _added : StdMap.t ptr;
  _removed : StdMap.t ptr
}.

(** What [ldap_get_dn], [ldap_first_attribute]/[ldap_next_attribute] and
    [ldap_get_values_len] read out of an [LDAPMessage]. *)
Record LDAPMessage : Type := {
  msg_dn : string;
  msg_attributes : list (string * list string)
}.

(** [LDAPEntry::LDAPEntry(LDAPConnection* conn, std::string dn)] *)
Definition LDAPEntry_new (dn : string) : LDAPEntry :=
  {| _dn := dn; _isnew := true; _data := []; _added := []; _removed := [] |}.

(** [LDAPEntry::LDAPEntry(LDAPConnection* conn, LDAPMessage* entry)]:
    [_data[std::string(attr)] = values] for each attribute in turn. *)
Definition LDAPEntry_of_message (entry : LDAPMessage) : LDAPEntry :=
  {| _dn := msg_dn entry;
     _isnew := false;
     _data := fold_left (fun d av => store (fst av) (snd av) d)
                        (msg_attributes entry) [];
     _added := [];
     _removed := [] |}.

Definition GetDN (e : LDAPEntry) : string := _dn e.

(** The loop pushes the key of every element, from [_data.begin()] on. *)
Definition GetKeys (e : LDAPEntry) : list string :=
  fold_left (fun rv kv => rv ++ [fst kv]) (_data e) [].

Definition with_data (e : LDAPEntry) (d : StdMap.t (list string)) : LDAPEntry :=
  {| _dn := _dn e; _isnew := _isnew e; _data := d;
     _added := _added e; _removed := _removed e |}.

(** [return _data[attribute];] the subscript may insert into [_data]. *)
Definition GetValue (attribute : string) (e : LDAPEntry)
  : LDAPEntry * list string :=
  let (d, values) := subscript [] attribute (_data e) in
  (with_data e d, values).

(** [None] is undefined behaviour: [front()] of an empty vector. *)
Definition GetFirstValue (attribute : string) (e : LDAPEntry)
  : option (LDAPEntry * string) :=
  match find attribute (_data e) with
  | None => Some (e, "")
  | Some _ =>
      let (d, values) := subscript [] attribute (_data e) in
      match values with
      | [] => None
      | v :: _ => Some (with_data e d, v)
      end
  end.

(** The pattern used on [_added] and [_removed]:
    [if (m[attribute] == 0) m[attribute] = new SearchableVector<std::string>;
     m[attribute]->push_back(value);]
    A null slot gets a fresh empty vector before the push. *)
Definition push_back_at (attribute value : string) (m : StdMap.t ptr)
  : StdMap.t ptr :=
  let (m1, p) := subscript None attribute m in
  let vec := match p with None => [] | Some l => l end in
  store attribute (Some (vec ++ [value])) m1.

Definition AddValue (attribute value : string) (e : LDAPEntry) : LDAPEntry :=
  let (d, values) := subscript [] attribute (_data e) in
  {| _dn := _dn e; _isnew := _isnew e;
     _data := store attribute (values ++ [value]) d;
     _added := push_back_at attribute value (_added e);
     _removed := _removed e |}.

(** The loop only reads [_data[attribute]]; each element equal to [value]
    ([compare] returns 0) is pushed onto [_removed[attribute]].  The key is
    present, so the subscripts in the loop header leave [_data] as it is. *)
Definition RemoveValue (attribute value : string) (e : LDAPEntry) : LDAPEntry :=
  if Nat.eqb (count attribute (_data e)) 0 then e
  else
    let (d, values) := subscript [] attribute (_data e) in
    let removed :=
      fold_left (fun r x =>
                   match String.compare x value with
                   | Eq => push_back_at attribute value r
                   | _ => r
                   end) values (_removed e) in
    let (d', values') := subscript [] attribute d in
    {| _dn := _dn e; _isnew := _isnew e;
       _data := match values' with [] => erase attribute d' | _ :: _ => d' end;
       _added := _added e;
       _removed := removed |}.

Definition RemoveAllValues (attribute : string) (e : LDAPEntry) : LDAPEntry :=
  if Nat.eqb (count attribute (_data e)) 0 then e
  else
    let (d, values) := subscript [] attribute (_data e) in
    let removed :=
      fold_left (fun r x => push_back_at attribute x r) values (_removed e) in
    {| _dn := _dn e; _isnew := _isnew e;
       _data := erase attribute d;
       _added := _added e;
       _removed := removed |}.

(** *** Sync *)

Inductive mod_op_t : Type := LDAP_MOD_ADD | LDAP_MOD_DELETE.

(** [LDAPMod]; [modv_strvals] is the NULL-terminated array as a list. *)
Record LDAPMod : Type := {
  mod_op : mod_op_t;
  mod_type : string;
  modv_strvals : list string
}.

(** The one request [Sync] sends; [mods] is the NULL-terminated array. *)
Inductive LDAPCall : Type :=
| ldap_add_ext_s (dn : string) (mods : list LDAPMod)
| ldap_modify_ext_s (dn : string) (mods : list LDAPMod).

Definition call_mods (c : LDAPCall) : list LDAPMod :=
  match c with
  | ldap_add_ext_s _ mods => mods
  | ldap_modify_ext_s _ mods => mods
  end.

Definition LDAP_SUCCESS : Z := 0.

(** How [Sync] ends.  [LDAPErrCode2Exception] is declared in ldap++.h and
    is not part of entry.cc; per the method's [@exception LDAPException]
    it raises an exception carrying [rc]. *)
Inductive SyncResult : Type :=
| Returned
| Threw (rc : Z).

(** One of the two loops of [Sync] over a delta map [m]: [items] are the
    elements the iterator visits, [m] the map, read again through
    [m[iter->first]].  [None] is a null-pointer dereference. *)
Fixpoint build_mods (op : mod_op_t) (items : list (string * ptr))
    (m : StdMap.t ptr) : option (StdMap.t ptr * list LDAPMod) :=
  match items with
  | [] => Some (m, [])
  | (k, _) :: rest =>
      let (m1, p) := subscript None k m in
      match p with
      | None => None
      | Some values =>
          let mod_ := {| mod_op := op;
                         mod_type := c_str k;
                         modv_strvals := map c_str values |} in
          match build_mods op rest m1 with
          | None => None
          | Some (m2, mods) => Some (m2, mod_ :: mods)
          end
      end
  end.

Section Collaborators.
(** The directory library behind [_conn->_ldap]: the return code of the
    request. *)
Variable ldap : LDAPCall -> Z.

(** [None]: undefined behaviour (null pointer in a delta map). *)
Definition Sync (e : LDAPEntry) : option (LDAPEntry * LDAPCall * SyncResult) :=
  match build_mods LDAP_MOD_DELETE (_removed e) (_removed e) with
  | None => None
  | Some (removed, dels) =>
      match build_mods LDAP_MOD_ADD (_added e) (_added e) with
      | None => None
      | Some (added, adds) =>
          let mods := dels ++ adds in
          let call := if _isnew e
                      then ldap_add_ext_s (c_str (_dn e)) mods
                      else ldap_modify_ext_s (c_str (_dn e)) mods in
          let rc := ldap call in
          let e' := {| _dn := _dn e; _isnew := _isnew e; _data := _data e;
                       _added := added; _removed := removed |} in
          Some (e', call, if Z.eqb rc LDAP_SUCCESS then Returned else Threw rc)
      end
  end.

End Collaborators.

(** *** Output

    The whole body of [Output] stands between [#ifdef HAVE_LDIF_H] and
    [#endif].  That body cannot be compiled together with the rest of the
    class: its else-branch declares, for [_data], an iterator of
    [std::map<std::string, SearchableVector<std::string>*>] and reads
    [iter->second->begin()], while the constructor, [GetValue],
    [GetFirstValue], [AddValue] and [RemoveValue] all use [_data] as a map
    of vectors held by value.  The file builds only without
    [HAVE_LDIF_H], and there the method has an empty body.  [out] is the
    text written to the stream so far, the result the text after the
    call; the record is not touched. *)
Definition Output (e : LDAPEntry) (out : string) : string := out.

(** Modelled from the spec: [HasPendingChanges] is not a method of
    entry.cc; section 4.1 defines it as "true if either delta map is
    non-empty". *)
Definition HasPendingChanges (e : LDAPEntry) : bool :=
  negb (empty (_added e)) || negb (empty (_removed e)).

(** *** Class invariant *)

Definition non_null (m : StdMap.t ptr) : bool :=
  forallb (fun kv => match snd kv with Some _ => true | None => false end) m.

(** The maps are ordered by key and no delta slot holds a null pointer. *)
Definition wf (e : LDAPEntry) : bool :=
  sorted (_data e) && sorted (_added e) && sorted (_removed e)
  && non_null (_added e) && non_null (_removed e).

End ldap_client.

(** ** Vocabulary of the statements *)

Module Views.
Import StdMap ldap_client.

(** The values an attribute currently holds in a map of vectors. *)
Definition values_of (attribute : string) (d : StdMap.t (list string))
  : list string :=
  match find attribute d with Some values => values | None => [] end.

(** The vector behind a delta slot. *)
Definition vector (p : ptr) : list string :=
  match p with Some l => l | None => [] end.

(** The values staged for an attribute in a delta map. *)
Definition staged (attribute : string) (m : StdMap.t ptr) : list string :=
  match find attribute m with Some p => vector p | None => [] end.

(** The operation built from one element of a delta map. *)
Definition mod_of (op : mod_op_t) (kv : string * ptr) : LDAPMod :=
  {| mod_op := op;
     mod_type := c_str (fst kv);
     modv_strvals := map c_str (vector (snd kv)) |}.

(** The batch of a record: removals, then additions. *)
Definition delta_mods (e : LDAPEntry) : list LDAPMod :=
  map (mod_of LDAP_MOD_DELETE) (_removed e)
  ++ map (mod_of LDAP_MOD_ADD) (_added e).

Definition request (e : LDAPEntry) : LDAPCall :=
  if _isnew e then ldap_add_ext_s (c_str (_dn e)) (delta_mods e)
  else ldap_modify_ext_s (c_str (_dn e)) (delta_mods e).

(** The attribute set a request carries, operation by operation. *)
Definition attribute_set (c : LDAPCall) : list (string * list string) :=
  map (fun m => (mod_type m, modv_strvals m)) (call_mods c).

(** A map of vectors as a sequence of (attribute-name, value) pairs. *)
Definition pairs_of_data (d : StdMap.t (list string)) : list (string * string) :=
  flat_map (fun kv => map (pair (fst kv)) (snd kv)) d.

Definition pairs_of_added (a : StdMap.t ptr) : list (string * string) :=
  flat_map (fun kv => map (pair (fst kv)) (vector (snd kv))) a.

(** One item of the export of section 4.3 and 6 of the specification:
    the explanatory comment, or one (attribute-name, value) pair. *)
Inductive export_item : Type :=
| ExportComment (text : string)
| ExportValue (name value : string).

Definition export_values (pairs : list (string * string)) : list export_item :=
  map (fun nv => ExportValue (fst nv) (snd nv)) pairs.

(** The export as the specification words it: the staged additions,
    after the comment, exactly when CurrentState is empty and toAdd is
    not; CurrentState otherwise. *)
Definition Export_as_specified (e : LDAPEntry) : list export_item :=
  if empty (_data e) && negb (empty (_added e))
  then ExportComment k_NewItemsString
       :: export_values (pairs_of_added (_added e))
  else export_values (pairs_of_data (_data e)).

(** What each delta map satisfies under the invariant. *)
Definition delta_ok (m : StdMap.t ptr) : Prop :=
  sorted m = true /\ non_null m = true.

(** The end of [Sync] for a return code: [if (rc != LDAP_SUCCESS)]. *)
Definition result_of (rc : Z) : SyncResult :=
  if Z.eqb rc LDAP_SUCCESS then Returned else Threw rc.

(** Example records. *)
Definition bob_existing : LDAPEntry :=
  LDAPEntry_of_message
    {| msg_dn := "uid=bob,ou=people";
       msg_attributes := [("cn", ["Bob"; "Robert"])] |}.

Definition bob_new : LDAPEntry :=
  AddValue "mail" "bob@x.com"
    (AddValue "cn" "Bob" (LDAPEntry_new "uid=bob,ou=people")).

Definition bob_edited : LDAPEntry :=
  AddValue "cn" "Bobby" (RemoveAllValues "cn" bob_existing).

Definition bob_retracted : LDAPEntry :=
  RemoveAllValues "cn" (AddValue "cn" "Bob" (LDAPEntry_new "uid=bob,ou=people")).

(** Directory stand-ins: one that accepts every request, one that rejects
    every request with LDAP_ALREADY_EXISTS. *)
Definition ldap_accepts (c : LDAPCall) : Z := 0.
Definition ldap_rejects (c : LDAPCall) : Z := 68.

End Views.

(** ** Sequences of method calls *)

Module Calls.
Import StdMap ldap_client.

(** A call of one of the public methods of [LDAPEntry]. *)
Inductive method : Type :=
| CallGetDN
| CallGetKeys
| CallGetValue (attribute : string)
| CallGetFirstValue (attribute : string)
| CallAddValue (attribute value : string)
| CallRemoveValue (attribute value : string)
| CallRemoveAllValues (attribute : string)
| CallSync.

(** The record after one call; [None] when the call is undefined.  An
    exception out of [Sync] leaves the object alive in the state [Sync]
    left it in. *)
Definition step (ldap : LDAPCall -> Z) (c : method) (e : LDAPEntry)
  : option LDAPEntry :=
  match c with
  | CallGetDN => Some e
  | CallGetKeys => Some e
  | CallGetValue a => Some (fst (GetValue a e))
  | CallGetFirstValue a =>
      match GetFirstValue a e with
      | Some (e', _) => Some e'
      | None => None
      end
  | CallAddValue a v => Some (AddValue a v e)
  | CallRemoveValue a v => Some (RemoveValue a v e)
  | CallRemoveAllValues a => Some (RemoveAllValues a e)
  | CallSync =>
      match Sync ldap e with
      | Some (e', _, _) => Some e'
      | None => None
      end
  end.

Fixpoint run (ldap : LDAPCall -> Z) (cs : list method) (e : LDAPEntry)
  : option LDAPEntry :=
  match cs with
  | [] => Some e
  | c :: cs' =>
      match step ldap c e with
      | Some e' => run ldap cs' e'
      | None => None
      end
  end.

Definition is_GetValue (c : method) : bool :=
  match c with CallGetValue _ => true | _ => false end.

Definition is_GetFirstValue (c : method) : bool :=
  match c with CallGetFirstValue _ => true | _ => false end.

(** Every key of [_data] holds at least one value. *)
Definition nonempty_vectors (d : StdMap.t (list string)) : bool :=
  forallb (fun kv => match snd kv with [] => false | _ :: _ => true end) d.

(** The string holds no NUL byte. *)
Fixpoint nul_free (s : string) : bool :=
  match s with
  | EmptyString => true
  | String c s' => negb (Ascii.eqb c Ascii.zero) && nul_free s'
  end.

(** All strings of a delta map are free of NUL bytes. *)
Definition delta_nul_free (m : StdMap.t ptr) : bool :=
  forallb (fun kv => nul_free (fst kv)
                     && forallb nul_free (match snd kv with
                                          | Some l => l
                                          | None => []
                                          end)) m.


Definition alice_message : LDAPMessage :=
  {| msg_dn := "uid=alice,ou=people";
     msg_attributes := [("mail", ["a@x.com"; "a2@x.com"]); ("cn", ["alice"])] |}.

Definition alice : LDAPEntry := LDAPEntry_of_message alice_message.


End Calls.

(** ** Facts about the container *)

Module StdMapFacts.
Import StdMap.

Lemma compare_refl (k : string) : String.compare k k = Eq.
Proof. apply (proj2 (String_as_OT.cmp_eq k k)). reflexivity. Qed.

Lemma ltb_trans (a b c : string) :
  String.ltb a b = true -> String.ltb b c = true -> String.ltb a c = true.
Proof.
  unfold String.ltb.
  destruct (String.compare a b) eqn:Hab; try discriminate.
  destruct (String.compare b c) eqn:Hbc; try discriminate.
  intros _ _.
  apply String_as_OT.cmp_lt in Hab, Hbc.
  pose proof (String_as_OT.lt_trans _ _ _ Hab Hbc) as Hac.
  apply String_as_OT.cmp_lt in Hac.
  unfold String_as_OT.cmp in Hac. rewrite Hac. reflexivity.
Qed.

Lemma compare_gt_ltb (a b : string) :
  String.compare a b = Gt -> String.ltb b a = true.
Proof.
  intros H. unfold String.ltb.
  rewrite String.compare_antisym, H. reflexivity.
Qed.

Lemma ltb_compare_gt (a b : string) :
  String.ltb b a = true -> String.compare a b = Gt.
Proof.
  unfold String.ltb. rewrite (String.compare_antisym a b).
  destruct (String.compare b a); simpl; congruence.
Qed.

Section Facts.
Context {V : Type}.
Implicit Types (m : t V) (k : string) (v : V).

Lemma find_store_same k v m : find k (store k v m) = Some v.
Proof.
  induction m as [|[k' v'] m IH]; simpl.
  - rewrite compare_refl. reflexivity.
  - destruct (String.compare k k') eqn:E; simpl.
    + rewrite compare_refl. reflexivity.
    + rewrite compare_refl. reflexivity.
    + rewrite E. exact IH.
Qed.

Lemma subscript_spec dflt k m :
  subscript dflt k m =
    match find k m with
    | Some v => (m, v)
    | None => (store k dflt m, dflt)
    end.
Proof.
  induction m as [|[k' v'] m IH]; simpl; [reflexivity|].
  destruct (String.compare k k') eqn:E; try reflexivity.
  rewrite IH. destruct (find k m); reflexivity.
Qed.

Lemma find_some_in_keys k v m : find k m = Some v -> In k (keys m).
Proof.
  induction m as [|[k' v'] m IH]; simpl; [discriminate|].
  destruct (String.compare k k') eqn:E; intros H.
  - left. symmetry. apply String.compare_eq_iff. exact E.
  - discriminate.
  - right. apply IH. exact H.
Qed.

Lemma lower_bound_trans a b m :
  String.ltb a b = true -> lower_bound b m = true -> lower_bound a m = true.
Proof.
  intros Hab. unfold lower_bound. rewrite !forallb_forall.
  intros H x Hx. eapply ltb_trans; [exact Hab|]. apply H. exact Hx.
Qed.

Lemma lower_bound_store a k v m :
  String.ltb a k = true -> lower_bound a m = true ->
  lower_bound a (store k v m) = true.
Proof.
  intros Hak. induction m as [|[k' v'] m IH]; simpl.
  - rewrite Hak. reflexivity.
  - intros H. apply andb_true_iff in H as [H1 H2].
    destruct (String.compare k k'); simpl.
    + rewrite Hak. exact H2.
    + rewrite Hak, H1. exact H2.
    + rewrite H1. apply IH. exact H2.
Qed.

Lemma sorted_store k v m : sorted m = true -> sorted (store k v m) = true.
Proof.
  induction m as [|[k' v'] m IH]; simpl; [reflexivity|].
  intros H. apply andb_true_iff in H as [H1 H2].
  destruct (String.compare k k') eqn:E; simpl.
  - apply String.compare_eq_iff in E. subst k'.
    rewrite H1. exact H2.
  - assert (Hlt : String.ltb k k' = true) by (unfold String.ltb; rewrite E; reflexivity).
    rewrite Hlt, H1, H2. simpl.
    rewrite (lower_bound_trans _ _ _ Hlt H1). reflexivity.
  - rewrite (IH H2), andb_true_r.
    apply lower_bound_store; [apply compare_gt_ltb; exact E | exact H1].
Qed.

Lemma lower_bound_erase a k m :
  lower_bound a m = true -> lower_bound a (erase k m) = true.
Proof.
  induction m as [|[k' v'] m IH]; simpl; [reflexivity|].
  intros H. apply andb_true_iff in H as [H1 H2].
  destruct (String.compare k k'); simpl.
  - exact H2.
  - rewrite H1. exact H2.
  - rewrite H1. apply IH. exact H2.
Qed.

Lemma sorted_erase k m : sorted m = true -> sorted (erase k m) = true.
Proof.
  induction m as [|[k' v'] m IH]; simpl; [reflexivity|].
  intros H. apply andb_true_iff in H as [H1 H2].
  destruct (String.compare k k'); simpl.
  - exact H2.
  - rewrite H1. exact H2.
  - rewrite (IH H2), andb_true_r. apply lower_bound_erase. exact H1.
Qed.

Lemma sorted_subscript dflt k m :
  sorted m = true -> sorted (fst (subscript dflt k m)) = true.
Proof.
  intros H. rewrite subscript_spec. destruct (find k m); simpl.
  - exact H.
  - apply sorted_store. exact H.
Qed.

(** In a sorted map the element an iterator points at is the one
    [find] returns for its key. *)
Lemma find_lower_bound k m :
  lower_bound k m = true -> find k m = None.
Proof.
  destruct m as [|[k' v'] m]; simpl; [reflexivity|].
  intros H. apply andb_true_iff in H as [H1 _].
  unfold String.ltb in H1.
  destruct (String.compare k k'); try discriminate. reflexivity.
Qed.

Lemma find_erase_same k m : sorted m = true -> find k (erase k m) = None.
Proof.
  induction m as [|[k' v'] m IH]; simpl; [reflexivity|].
  intros H. apply andb_true_iff in H as [H1 H2].
  destruct (String.compare k k') eqn:E; simpl.
  - apply String.compare_eq_iff in E. subst k'.
    apply find_lower_bound. exact H1.
  - rewrite E. reflexivity.
  - rewrite E. apply IH. exact H2.
Qed.

Lemma store_store k v v' m : store k v (store k v' m) = store k v m.
Proof.
  induction m as [|[k' w] m IH]; simpl.
  - rewrite compare_refl. reflexivity.
  - destruct (String.compare k k') eqn:E; simpl.
    + rewrite compare_refl. reflexivity.
    + rewrite compare_refl. reflexivity.
    + rewrite E, IH. reflexivity.
Qed.

Lemma sorted_find_in k v m :
  sorted m = true -> In (k, v) m -> find k m = Some v.
Proof.
  induction m as [|[k' v'] m IH]; simpl; [contradiction|].
  intros H [Heq | Hin]; apply andb_true_iff in H as [H1 H2].
  - inversion Heq; subst. rewrite compare_refl. reflexivity.
  - assert (Hlt : String.ltb k' k = true).
    { unfold lower_bound in H1. rewrite forallb_forall in H1.
      apply (H1 (k, v)). exact Hin. }
    rewrite (ltb_compare_gt _ _ Hlt). apply IH; assumption.
Qed.

Lemma lower_bound_not_in k m :
  lower_bound k m = true -> ~ In k (keys m).
Proof.
  unfold lower_bound, keys. rewrite forallb_forall. intros H Hin.
  apply in_map_iff in Hin as [[k' v'] [Hk Hin]]. simpl in Hk. subst k'.
  specialize (H _ Hin). simpl in H.
  unfold String.ltb in H. rewrite compare_refl in H. discriminate.
Qed.

Lemma find_none_not_in_keys k m :
  sorted m = true -> find k m = None -> ~ In k (keys m).
Proof.
  induction m as [|[k' v'] m IH]; simpl; [tauto|].
  intros H Hf. apply andb_true_iff in H as [H1 H2].
  destruct (String.compare k k') eqn:E; try discriminate.
  - assert (Hlt : String.ltb k k' = true)
      by (unfold String.ltb; rewrite E; reflexivity).
    intros [Heq | Hin].
    + subst k'. rewrite compare_refl in E. discriminate.
    + revert Hin. apply lower_bound_not_in.
      eapply lower_bound_trans; eassumption.
  - intros [Heq | Hin].
    + subst k'. rewrite compare_refl in E. discriminate.
    + exact (IH H2 Hf Hin).
Qed.

End Facts.

End StdMapFacts.

(** ** Facts about the record *)

Module LDAPEntryFacts.
Import StdMap StdMapFacts ldap_client Views.

Lemma wf_parts (e : LDAPEntry) :
  wf e = true <->
  sorted (_data e) = true /\ sorted (_added e) = true /\
  sorted (_removed e) = true /\ non_null (_added e) = true /\
  non_null (_removed e) = true.
Proof. unfold wf. rewrite !andb_true_iff. tauto. Qed.

Lemma GetKeys_keys (e : LDAPEntry) : GetKeys e = keys (_data e).
Proof.
  unfold GetKeys, keys.
  assert (H : forall (l : StdMap.t (list string)) acc,
             fold_left (fun rv kv => rv ++ [fst kv]) l acc = acc ++ map fst l).
  { induction l as [|kv l IH]; intros acc; simpl.
    - rewrite app_nil_r. reflexivity.
    - rewrite IH, <- app_assoc. reflexivity. }
  apply (H (_data e) []).
Qed.

Lemma push_back_at_spec (a x : string) (m : StdMap.t ptr) :
  push_back_at a x m = store a (Some (staged a m ++ [x])) m.
Proof.
  unfold push_back_at, staged, ptr in *. rewrite subscript_spec.
  destruct (find a m) as [[l|]|]; simpl; try reflexivity.
  apply store_store.
Qed.

Lemma non_null_store (k : string) (l : list string) (m : StdMap.t ptr) :
  non_null m = true -> non_null (store k (Some l) m) = true.
Proof.
  induction m as [|[k' p] m IH]; simpl; [reflexivity|].
  intros H. apply andb_true_iff in H as [H1 H2].
  destruct (String.compare k k'); simpl.
  - exact H2.
  - rewrite H1. exact H2.
  - rewrite H1. apply IH. exact H2.
Qed.

Lemma delta_ok_push_back_at (a x : string) (m : StdMap.t ptr) :
  delta_ok m -> delta_ok (push_back_at a x m).
Proof.
  intros [Hs Hn]. rewrite push_back_at_spec. split.
  - apply sorted_store. exact Hs.
  - apply non_null_store. exact Hn.
Qed.

Lemma delta_ok_fold {A : Type} (f : StdMap.t ptr -> A -> StdMap.t ptr)
    (l : list A) :
  (forall m x, delta_ok m -> delta_ok (f m x)) ->
  forall m, delta_ok m -> delta_ok (fold_left f l m).
Proof.
  intros Hf. induction l as [|x l IH]; intros m Hm; simpl.
  - exact Hm.
  - apply IH, Hf, Hm.
Qed.

(** *** The invariant holds at construction and is kept by every method *)

Lemma wf_LDAPEntry_new (dn : string) : wf (LDAPEntry_new dn) = true.
Proof. reflexivity. Qed.

Lemma wf_LDAPEntry_of_message (entry : LDAPMessage) :
  wf (LDAPEntry_of_message entry) = true.
Proof.
  apply wf_parts. simpl. repeat split; try reflexivity.
  generalize (@nil (string * list string)) (eq_refl : sorted (@nil (string * list string)) = true).
  induction (msg_attributes entry) as [|av l IH]; intros d Hd; simpl.
  - exact Hd.
  - apply IH, sorted_store, Hd.
Qed.

Lemma wf_GetValue (attribute : string) (e : LDAPEntry) :
  wf e = true -> wf (fst (GetValue attribute e)) = true.
Proof.
  rewrite !wf_parts. intros (Hd & Ha & Hr & Hna & Hnr).
  unfold GetValue.
  pose proof (sorted_subscript [] attribute (_data e) Hd) as Hs.
  destruct (subscript [] attribute (_data e)) as [d values]. simpl in *.
  repeat split; assumption.
Qed.

Lemma wf_GetFirstValue (attribute v : string) (e e' : LDAPEntry) :
  wf e = true -> GetFirstValue attribute e = Some (e', v) -> wf e' = true.
Proof.
  intros Hwf. unfold GetFirstValue.
  destruct (find attribute (_data e)) as [values|] eqn:Hf.
  - rewrite subscript_spec, Hf.
    destruct values as [|v0 values]; [discriminate|].
    intros H. inversion H; subst. destruct e; exact Hwf.
  - intros H. inversion H; subst. exact Hwf.
Qed.

Lemma wf_AddValue (attribute value : string) (e : LDAPEntry) :
  wf e = true -> wf (AddValue attribute value e) = true.
Proof.
  rewrite !wf_parts. intros (Hd & Ha & Hr & Hna & Hnr).
  unfold AddValue.
  pose proof (sorted_subscript [] attribute (_data e) Hd) as Hs.
  destruct (subscript [] attribute (_data e)) as [d values]. simpl in *.
  destruct (delta_ok_push_back_at attribute value (_added e) (conj Ha Hna)).
  repeat split; try assumption.
  apply sorted_store. exact Hs.
Qed.

Lemma wf_RemoveValue (attribute value : string) (e : LDAPEntry) :
  wf e = true -> wf (RemoveValue attribute value e) = true.
Proof.
  intros Hwf. unfold RemoveValue.
  destruct (Nat.eqb (count attribute (_data e)) 0); [exact Hwf|].
  apply wf_parts in Hwf as (Hd & Ha & Hr & Hna & Hnr).
  pose proof (sorted_subscript [] attribute (_data e) Hd) as Hs.
  destruct (subscript [] attribute (_data e)) as [d values]. simpl in Hs.
  pose proof (sorted_subscript [] attribute d Hs) as Hs'.
  destruct (subscript [] attribute d) as [d' values']. simpl in Hs'.
  apply wf_parts. simpl.
  assert (Hrem : delta_ok
            (fold_left (fun r x =>
                          match String.compare x value with
                          | Eq => push_back_at attribute value r
                          | _ => r
                          end) values (_removed e))).
  { apply delta_ok_fold; [|split; assumption].
    intros m x Hm. destruct (String.compare x value); try exact Hm.
    apply delta_ok_push_back_at. exact Hm. }
  destruct Hrem as [Hrs Hrn].
  repeat split; try assumption.
  destruct values'; [apply sorted_erase|]; exact Hs'.
Qed.

Lemma wf_RemoveAllValues (attribute : string) (e : LDAPEntry) :
  wf e = true -> wf (RemoveAllValues attribute e) = true.
Proof.
  intros Hwf. unfold RemoveAllValues.
  destruct (Nat.eqb (count attribute (_data e)) 0); [exact Hwf|].
  apply wf_parts in Hwf as (Hd & Ha & Hr & Hna & Hnr).
  pose proof (sorted_subscript [] attribute (_data e) Hd) as Hs.
  destruct (subscript [] attribute (_data e)) as [d values]. simpl in Hs.
  apply wf_parts. simpl.
  assert (Hrem : delta_ok
            (fold_left (fun r x => push_back_at attribute x r)
                       values (_removed e))).
  { apply delta_ok_fold; [|split; assumption].
    intros m x Hm. apply delta_ok_push_back_at. exact Hm. }
  destruct Hrem as [Hrs Hrn].
  repeat split; try assumption.
  apply sorted_erase. exact Hs.
Qed.

(** *** Sync *)

Lemma build_mods_spec (op : mod_op_t) (items : list (string * ptr))
    (m : StdMap.t ptr) :
  (forall k p, In (k, p) items -> find k m = Some p) ->
  non_null items = true ->
  build_mods op items m = Some (m, map (mod_of op) items).
Proof.
  unfold ptr in *.
  induction items as [|[k p] items IH]; intros Hfind Hnn; simpl.
  - reflexivity.
  - simpl in Hnn. apply andb_true_iff in Hnn as [Hp Hnn].
    rewrite subscript_spec, (Hfind k p (or_introl eq_refl)).
    destruct p as [values|]; [|discriminate].
    rewrite IH; [reflexivity| |exact Hnn].
    intros k' p' Hin. apply Hfind. right. exact Hin.
Qed.

Lemma build_mods_self (op : mod_op_t) (m : StdMap.t ptr) :
  delta_ok m -> build_mods op m m = Some (m, map (mod_of op) m).
Proof.
  intros [Hs Hn]. apply build_mods_spec; [|exact Hn].
  intros k p. apply sorted_find_in. exact Hs.
Qed.

(** Under the invariant [Sync] is defined, sends [request e] and leaves
    every member as it was. *)
Lemma Sync_spec (ldap : LDAPCall -> Z) (e : LDAPEntry) :
  wf e = true ->
  Sync ldap e = Some (e, request e, result_of (ldap (request e))).
Proof.
  intros Hwf. apply wf_parts in Hwf as (Hd & Ha & Hr & Hna & Hnr).
  unfold Sync.
  rewrite (build_mods_self _ _ (conj Hr Hnr)).
  rewrite (build_mods_self _ _ (conj Ha Hna)).
  destruct e as [dn isnew d a r]; simpl.
  unfold request, delta_mods, result_of; simpl.
  destruct isnew; reflexivity.
Qed.

End LDAPEntryFacts.

(** ** The record's value edits *)

Import StdMap StdMapFacts ldap_client Views LDAPEntryFacts.

Lemma AddValue_data (attribute value : string) (e : LDAPEntry) :
  _data (AddValue attribute value e) =
  store attribute (values_of attribute (_data e) ++ [value]) (_data e).
Proof.
  unfold AddValue, values_of. rewrite subscript_spec.
  destruct (find attribute (_data e)); simpl; [reflexivity|].
  apply store_store.
Qed.

Lemma AddValue_added (attribute value : string) (e : LDAPEntry) :
  _added (AddValue attribute value e) =
  store attribute (Some (staged attribute (_added e) ++ [value])) (_added e).
Proof.
  unfold AddValue.
  destruct (subscript [] attribute (_data e)); simpl.
  apply push_back_at_spec.
Qed.

Lemma values_of_store (attribute : string) (values : list string)
    (d : StdMap.t (list string)) :
  values_of attribute (store attribute values d) = values.
Proof. unfold values_of. rewrite find_store_same. reflexivity. Qed.

Lemma staged_store (attribute : string) (values : list string)
    (m : StdMap.t ptr) :
  staged attribute (store attribute (Some values) m) = values.
Proof. unfold staged. rewrite find_store_same. reflexivity. Qed.

(** [RemoveValue] never takes a value out of [_data]: the only change it
    can make there is to erase a key whose vector is already empty. *)
Lemma RemoveValue_data (attribute value : string) (e : LDAPEntry) :
  _data (RemoveValue attribute value e) =
  match find attribute (_data e) with
  | Some [] => erase attribute (_data e)
  | _ => _data e
  end.
Proof.
  unfold RemoveValue, count.
  destruct (find attribute (_data e)) as [values|] eqn:Hf; simpl;
    [|reflexivity].
  rewrite subscript_spec, Hf. rewrite subscript_spec, Hf. simpl.
  destruct values; reflexivity.
Qed.

(** The sibling [RemoveAllValues] does take the attribute out of [_data]. *)
Lemma RemoveAllValues_erases (attribute : string) (e : LDAPEntry) :
  wf e = true -> find attribute (_data (RemoveAllValues attribute e)) = None.
Proof.
  intros Hwf. apply wf_parts in Hwf as (Hd & _).
  unfold RemoveAllValues, count.
  destruct (find attribute (_data e)) as [values|] eqn:Hf; simpl;
    [|exact Hf].
  rewrite subscript_spec, Hf. simpl.
  apply find_erase_same. exact Hd.
Qed.

(** C1 (fails on the code).  For the record read with cn = [Bob; Robert],
    RemoveValue cn Robert stages Robert once in toRemove[cn], but
    GetValues cn still returns [Bob; Robert]: the value is not taken out
    of CurrentState. *)
Theorem RemoveValue_leaves_value_in_current_state :
  let e := RemoveValue "cn" "Robert" bob_existing in
  staged "cn" (_removed e) = ["Robert"] /\
  snd (GetValue "cn" e) = ["Bob"; "Robert"] /\
  snd (GetValue "cn" e) <> ["Bob"].
Proof.
  cbv zeta. split; [reflexivity|]. split; [reflexivity|].
  vm_compute. discriminate.
Qed.

(** C6.  GetValues(name) returns the vector CurrentState holds for name,
    in order, and the empty sequence when name is not a key; the result
    type has no error case. *)
Theorem GetValue_returns_current_values (attribute : string) (e : LDAPEntry) :
  snd (GetValue attribute e) =
  match find attribute (_data e) with
  | Some values => values
  | None => []
  end.
Proof.
  unfold GetValue. rewrite subscript_spec.
  destruct (find attribute (_data e)); reflexivity.
Qed.

(** C7 (fails on the code).  After GetValues has left "mail" in
    CurrentState with no values, GetFirstValue "mail" takes front() of an
    empty vector: undefined behaviour, not the empty string. *)
Theorem GetFirstValue_front_of_empty_vector :
  let e := fst (GetValue "mail" (LDAPEntry_new "uid=bob,ou=people")) in
  find "mail" (_data e) = Some [] /\
  GetFirstValue "mail" e = None /\
  GetFirstValue "mail" e <> Some (e, "").
Proof.
  cbv zeta. split; [reflexivity|]. split; [reflexivity|].
  vm_compute. discriminate.
Qed.

(** C8.  AddValue(name, value) appends value to CurrentState[name] and to
    toAdd[name], creating either key when missing; a second call with the
    same pair appends a second occurrence to both. *)
Theorem AddValue_appends_to_both_without_dedup
    (attribute value : string) (e : LDAPEntry) :
  let e1 := AddValue attribute value e in
  let e2 := AddValue attribute value e1 in
  find attribute (_data e1)
    = Some (values_of attribute (_data e) ++ [value]) /\
  find attribute (_added e1)
    = Some (Some (staged attribute (_added e) ++ [value])) /\
  find attribute (_data e2)
    = Some (values_of attribute (_data e) ++ [value; value]) /\
  find attribute (_added e2)
    = Some (Some (staged attribute (_added e) ++ [value; value])) /\
  count_occ string_dec (values_of attribute (_data e2)) value
    = 2 + count_occ string_dec (values_of attribute (_data e)) value /\
  count_occ string_dec (staged attribute (_added e2)) value
    = 2 + count_occ string_dec (staged attribute (_added e)) value.
Proof.
  cbv zeta.
  rewrite !AddValue_data, !AddValue_added.
  rewrite !values_of_store, !staged_store, !find_store_same.
  rewrite <- !app_assoc. simpl.
  repeat split; try reflexivity.
  - rewrite count_occ_app. simpl.
    destruct (string_dec value value); [lia | congruence].
  - rewrite count_occ_app. simpl.
    destruct (string_dec value value); [lia | congruence].
Qed.

(** C10.  When name is not a key of CurrentState, GetValues(name) returns
    the empty sequence and inserts name with an empty vector: GetKeys did
    not list name before the call and lists it after, so the record is
    changed by the query. *)
Theorem GetValue_inserts_missing_key (attribute : string) (e : LDAPEntry) :
  wf e = true ->
  count attribute (_data e) = 0 ->
  let e' := fst (GetValue attribute e) in
  snd (GetValue attribute e) = [] /\
  ~ In attribute (GetKeys e) /\
  In attribute (GetKeys e') /\
  find attribute (_data e') = Some [] /\
  e' <> e.
Proof.
  intros Hwf Hcount. cbv zeta.
  apply wf_parts in Hwf as (Hd & _).
  assert (Hf : find attribute (_data e) = None).
  { unfold count in Hcount. destruct (find attribute (_data e)); [discriminate|reflexivity]. }
  unfold GetValue. rewrite subscript_spec, Hf. simpl.
  rewrite !GetKeys_keys. simpl.
  assert (Hs : find attribute (store attribute [] (_data e)) = Some [])
    by apply find_store_same.
  repeat split.
  - apply find_none_not_in_keys; assumption.
  - eapply find_some_in_keys. exact Hs.
  - exact Hs.
  - intros Heq. rewrite <- Heq in Hf. simpl in Hf. congruence.
Qed.

Lemma GetValue_inserts_missing_key_witness :
  wf bob_new = true /\ count "missing" (_data bob_new) = 0 /\
  GetKeys bob_new = ["cn"; "mail"] /\
  In "missing" (GetKeys (fst (GetValue "missing" bob_new))).
Proof.
  split; [reflexivity|]. split; [reflexivity|]. split; [reflexivity|].
  apply (GetValue_inserts_missing_key "missing" bob_new); reflexivity.
Defined.

(** ** Sync *)

Lemma delta_mods_order (e : LDAPEntry) (i j : nat) (mi mj : LDAPMod) :
  nth_error (delta_mods e) i = Some mi ->
  nth_error (delta_mods e) j = Some mj ->
  mod_op mi = LDAP_MOD_DELETE -> mod_op mj = LDAP_MOD_ADD -> i < j.
Proof.
  unfold delta_mods. intros Hi Hj Hdel Hadd.
  set (dels := map (mod_of LDAP_MOD_DELETE) (_removed e)) in *.
  set (adds := map (mod_of LDAP_MOD_ADD) (_added e)) in *.
  assert (Hilt : i < length dels).
  { destruct (Nat.lt_ge_cases i (length dels)) as [Hlt | Hge]; [exact Hlt|].
    rewrite nth_error_app2 in Hi by exact Hge.
    apply nth_error_In in Hi. unfold adds in Hi.
    apply in_map_iff in Hi as [kv [Hkv _]]. subst mi. discriminate. }
  assert (Hjge : length dels <= j).
  { destruct (Nat.lt_ge_cases j (length dels)) as [Hlt | Hge]; [|exact Hge].
    rewrite nth_error_app1 in Hj by exact Hlt.
    apply nth_error_In in Hj. unfold dels in Hj.
    apply in_map_iff in Hj as [kv [Hkv _]]. subst mj. discriminate. }
  lia.
Qed.

Lemma call_mods_request (e : LDAPEntry) : call_mods (request e) = delta_mods e.
Proof. unfold request. destruct (_isnew e); reflexivity. Qed.

(** C3.  The batch Sync submits is one DELETE operation per key of
    toRemove, in key order, followed by one ADD operation per key of
    toAdd, in key order; every DELETE therefore sits before every ADD,
    also when the two maps share attribute names. *)
Theorem Sync_batch_deletes_before_adds (ldap : LDAPCall -> Z) (e : LDAPEntry) :
  wf e = true ->
  exists e' call r,
    Sync ldap e = Some (e', call, r) /\
    call_mods call =
      map (mod_of LDAP_MOD_DELETE) (_removed e)
      ++ map (mod_of LDAP_MOD_ADD) (_added e) /\
    forall i j mi mj,
      nth_error (call_mods call) i = Some mi ->
      nth_error (call_mods call) j = Some mj ->
      mod_op mi = LDAP_MOD_DELETE -> mod_op mj = LDAP_MOD_ADD -> i < j.
Proof.
  intros Hwf. exists e, (request e), (result_of (ldap (request e))).
  split; [apply Sync_spec; exact Hwf|].
  rewrite call_mods_request. split; [reflexivity|].
  apply delta_mods_order.
Qed.

Lemma Sync_batch_deletes_before_adds_witness :
  wf bob_edited = true /\
  keys (_removed bob_edited) = ["cn"] /\ keys (_added bob_edited) = ["cn"] /\
  exists e' call r,
    Sync ldap_accepts bob_edited = Some (e', call, r) /\
    call_mods call =
      map (mod_of LDAP_MOD_DELETE) (_removed bob_edited)
      ++ map (mod_of LDAP_MOD_ADD) (_added bob_edited) /\
    forall i j mi mj,
      nth_error (call_mods call) i = Some mi ->
      nth_error (call_mods call) j = Some mj ->
      mod_op mi = LDAP_MOD_DELETE -> mod_op mj = LDAP_MOD_ADD -> i < j.
Proof.
  split; [reflexivity|]. split; [reflexivity|]. split; [reflexivity|].
  apply (Sync_batch_deletes_before_adds ldap_accepts bob_edited).
  reflexivity.
Defined.

(** C4.  When the directory answers the request with a code other than
    LDAP_SUCCESS, Sync raises that code and CurrentState, toAdd and
    toRemove are what they were before the call. *)
Theorem Sync_failure_keeps_state (ldap : LDAPCall -> Z) (e : LDAPEntry) :
  wf e = true ->
  ldap (request e) <> LDAP_SUCCESS ->
  exists e',
    Sync ldap e = Some (e', request e, Threw (ldap (request e))) /\
    _data e' = _data e /\ _added e' = _added e /\ _removed e' = _removed e.
Proof.
  intros Hwf Hrc. exists e. split; [|repeat split].
  rewrite (Sync_spec ldap e Hwf). unfold result_of.
  destruct (Z.eqb_spec (ldap (request e)) LDAP_SUCCESS); [contradiction|].
  reflexivity.
Qed.

Lemma Sync_failure_keeps_state_witness :
  wf bob_edited = true /\
  ldap_rejects (request bob_edited) <> LDAP_SUCCESS /\
  exists e',
    Sync ldap_rejects bob_edited = Some (e', request bob_edited, Threw 68) /\
    _data e' = _data bob_edited /\ _added e' = _added bob_edited /\
    _removed e' = _removed bob_edited.
Proof.
  split; [reflexivity|]. split; [discriminate|].
  apply (Sync_failure_keeps_state ldap_rejects bob_edited).
  - reflexivity.
  - discriminate.
Defined.

(** C2 as stated is false: the new record with two staged additions
    still has them staged, and is still flagged new, after a Sync that
    the directory accepted. *)
Lemma Sync_success_clears_delta_counterexample :
  ~ (forall (ldap : LDAPCall -> Z) (e e' : LDAPEntry) (call : LDAPCall),
        wf e = true ->
        Sync ldap e = Some (e', call, Returned) ->
        HasPendingChanges e' = false /\ _isnew e' = false).
Proof.
  intros H.
  destruct (H ldap_accepts bob_new bob_new (request bob_new)
              eq_refl eq_refl) as [Hpending _].
  discriminate Hpending.
Qed.

(** C2 (amended).  After a Sync that the directory accepted, toAdd,
    toRemove and the isNew flag are what they were before the call: Sync
    clears nothing and does not reset the flag, so HasPendingChanges and
    isNew keep their prior values. *)
Theorem Sync_success_keeps_delta_and_flag (ldap : LDAPCall -> Z) (e : LDAPEntry) :
  wf e = true ->
  ldap (request e) = LDAP_SUCCESS ->
  exists e',
    Sync ldap e = Some (e', request e, Returned) /\
    _added e' = _added e /\ _removed e' = _removed e /\
    _isnew e' = _isnew e /\
    HasPendingChanges e' = HasPendingChanges e.
Proof.
  intros Hwf Hrc. exists e. split; [|repeat split].
  rewrite (Sync_spec ldap e Hwf). unfold result_of. rewrite Hrc. reflexivity.
Qed.

Lemma Sync_success_keeps_delta_and_flag_witness :
  wf bob_new = true /\
  ldap_accepts (request bob_new) = LDAP_SUCCESS /\
  exists e',
    Sync ldap_accepts bob_new = Some (e', request bob_new, Returned) /\
    _added e' = _added bob_new /\ _removed e' = _removed bob_new /\
    _isnew e' = _isnew bob_new /\
    HasPendingChanges e' = HasPendingChanges bob_new.
Proof.
  split; [reflexivity|]. split; [reflexivity|].
  apply (Sync_success_keeps_delta_and_flag ldap_accepts bob_new); reflexivity.
Defined.

(** C5 as stated is false: a new record on which cn=Bob was added and
    then removed has an empty CurrentState, yet its create request
    carries the two operations of the delta. *)
Lemma Sync_create_from_current_state_counterexample :
  ~ (forall (ldap : LDAPCall -> Z) (e e' : LDAPEntry) (call : LDAPCall)
            (r : SyncResult),
        wf e = true ->
        _isnew e = true ->
        Sync ldap e = Some (e', call, r) ->
        attribute_set call = _data e).
Proof.
  intros H.
  specialize (H ldap_accepts bob_retracted bob_retracted
                (request bob_retracted) Returned eq_refl eq_refl eq_refl).
  discriminate H.
Qed.

(** C5 (amended).  Sync builds one batch from the delta maps alone and
    submits that batch as a create (ldap_add_ext_s) when isNew is true
    and as a modify (ldap_modify_ext_s) when isNew is false; CurrentState
    does not enter the request in either case. *)
Theorem Sync_request_built_from_delta (ldap : LDAPCall -> Z) (e : LDAPEntry) :
  wf e = true ->
  (exists e' r,
     Sync ldap e =
       Some (e',
             (if _isnew e
              then ldap_add_ext_s (c_str (_dn e)) (delta_mods e)
              else ldap_modify_ext_s (c_str (_dn e)) (delta_mods e)),
             r)) /\
  (forall d e1 call1 r1 e2 call2 r2,
     sorted d = true ->
     Sync ldap e = Some (e1, call1, r1) ->
     Sync ldap (with_data e d) = Some (e2, call2, r2) ->
     call2 = call1).
Proof.
  intros Hwf. split.
  - exists e, (result_of (ldap (request e))). apply Sync_spec. exact Hwf.
  - intros d e1 call1 r1 e2 call2 r2 Hd H1 H2.
    assert (Hwf' : wf (with_data e d) = true).
    { apply wf_parts in Hwf as (_ & Ha & Hr & Hna & Hnr).
      apply wf_parts. simpl. repeat split; assumption. }
    rewrite (Sync_spec ldap e Hwf) in H1.
    rewrite (Sync_spec ldap _ Hwf') in H2.
    inversion H1; inversion H2; subst. reflexivity.
Qed.

Lemma Sync_request_built_from_delta_witness :
  wf bob_new = true /\
  exists e' r,
    Sync ldap_accepts bob_new =
      Some (e',
            ldap_add_ext_s "uid=bob,ou=people"
              [ {| mod_op := LDAP_MOD_ADD; mod_type := "cn";
                   modv_strvals := ["Bob"] |};
                {| mod_op := LDAP_MOD_ADD; mod_type := "mail";
                   modv_strvals := ["bob@x.com"] |} ],
            r).
Proof.
  split; [reflexivity|].
  exact (proj1 (Sync_request_built_from_delta ldap_accepts bob_new eq_refl)).
Defined.

(** ** Output *)

(** C9 (fails on the code).  For the record read with cn = [Bob; Robert]
    the specified export is the two pairs of CurrentState, and for the
    new record whose cn=Bob was added and removed again it is the comment
    followed by the staged pair; Output writes nothing to the stream for
    either record. *)
Theorem Output_writes_no_view :
  Export_as_specified bob_existing
    = [ExportValue "cn" "Bob"; ExportValue "cn" "Robert"] /\
  (forall out, Output bob_existing out = out) /\
  Export_as_specified bob_retracted
    = [ExportComment "All items in this file are new."; ExportValue "cn" "Bob"] /\
  (forall out, Output bob_retracted out = out).
Proof.
  split; [reflexivity|]. split; [intros out; reflexivity|].
  split; [reflexivity|]. intros out; reflexivity.
Qed.

(** ** More about the container *)

Import Calls.

Lemma compare_lt_trans (a b c : string) :
  String.compare a b = Lt -> String.compare b c = Lt -> String.compare a c = Lt.
Proof.
  intros Hab Hbc.
  assert (H : String.ltb a c = true).
  { apply (ltb_trans a b c); unfold String.ltb; [rewrite Hab | rewrite Hbc];
      reflexivity. }
  unfold String.ltb in H. destruct (String.compare a c); congruence.
Qed.

Lemma compare_eq_iff_eq (a b : string) : String.compare a b = Eq <-> a = b.
Proof.
  split; [apply String.compare_eq_iff|]. intros ->. apply compare_refl.
Qed.

Lemma find_store_other {V : Type} (k k' : string) (v : V) (m : StdMap.t V) :
  k <> k' -> find k (store k' v m) = find k m.
Proof.
  intros Hne. induction m as [|[k'' w] m IH]; simpl.
  - destruct (String.compare k k') eqn:E; try reflexivity.
    apply String.compare_eq_iff in E. contradiction.
  - destruct (String.compare k' k'') eqn:E'; simpl.
    + apply String.compare_eq_iff in E'. subst k''.
      destruct (String.compare k k') eqn:E; try reflexivity.
      apply String.compare_eq_iff in E. contradiction.
    + destruct (String.compare k k') eqn:E.
      * apply String.compare_eq_iff in E. contradiction.
      * rewrite (compare_lt_trans _ _ _ E E'). reflexivity.
      * reflexivity.
    + destruct (String.compare k k''); try reflexivity. exact IH.
Qed.

Lemma find_erase_other {V : Type} (k k' : string) (m : StdMap.t V) :
  sorted m = true -> k <> k' -> find k (erase k' m) = find k m.
Proof.
  intros Hs Hne. induction m as [|[k'' w] m IH]; simpl; [reflexivity|].
  simpl in Hs. apply andb_true_iff in Hs as [H1 H2].
  destruct (String.compare k' k'') eqn:E'; simpl.
  - apply String.compare_eq_iff in E'. subst k''.
    destruct (String.compare k k') eqn:E.
    + apply String.compare_eq_iff in E. contradiction.
    + apply find_lower_bound.
      apply (lower_bound_trans k k'); [|exact H1].
      unfold String.ltb. rewrite E. reflexivity.
    + reflexivity.
  - reflexivity.
  - destruct (String.compare k k''); try reflexivity. apply IH. exact H2.
Qed.

Lemma find_some_in {V : Type} (k : string) (v : V) (m : StdMap.t V) :
  find k m = Some v -> In (k, v) m.
Proof.
  induction m as [|[k' v'] m IH]; simpl; [discriminate|].
  destruct (String.compare k k') eqn:E; intros H.
  - apply String.compare_eq_iff in E. left. congruence.
  - discriminate.
  - right. apply IH. exact H.
Qed.

Lemma in_keys_find {V : Type} (k : string) (m : StdMap.t V) :
  sorted m = true -> In k (keys m) -> exists v, find k m = Some v.
Proof.
  intros Hs Hin. unfold keys in Hin.
  apply in_map_iff in Hin as [[k' v] [Hk Hin]]. simpl in Hk. subst k'.
  exists v. apply sorted_find_in; assumption.
Qed.

Lemma keys_store {V : Type} (k k' : string) (v : V) (m : StdMap.t V) :
  In k (keys (store k' v m)) <-> k = k' \/ In k (keys m).
Proof.
  induction m as [|[k'' w] m IH]; simpl.
  - intuition congruence.
  - destruct (String.compare k' k'') eqn:E; simpl.
    + apply String.compare_eq_iff in E. subst k''. intuition congruence.
    + intuition congruence.
    + rewrite IH. intuition congruence.
Qed.

Lemma store_not_empty {V : Type} (k : string) (v : V) (m : StdMap.t V) :
  empty (store k v m) = false.
Proof.
  destruct m as [|[k' w] m]; simpl; [reflexivity|].
  destruct (String.compare k k'); reflexivity.
Qed.

Lemma sorted_keys_NoDup {V : Type} (m : StdMap.t V) :
  sorted m = true -> NoDup (keys m).
Proof.
  induction m as [|[k v] m IH]; simpl; intros H; [constructor|].
  apply andb_true_iff in H as [H1 H2]. constructor.
  - apply lower_bound_not_in. exact H1.
  - apply IH. exact H2.
Qed.

Lemma sorted_keys_increasing {V : Type} (m : StdMap.t V) (i j : nat)
    (a b : string) :
  sorted m = true ->
  nth_error (keys m) i = Some a -> nth_error (keys m) j = Some b ->
  i < j -> String.ltb a b = true.
Proof.
  revert i j. induction m as [|[k v] m IH]; intros i j Hs Hi Hj Hlt.
  - destruct i; discriminate.
  - simpl in Hs. apply andb_true_iff in Hs as [H1 H2].
    destruct j as [|j]; [lia|]. simpl in Hj.
    destruct i as [|i]; simpl in Hi.
    + inversion Hi; subst a.
      apply nth_error_In in Hj. unfold keys in Hj.
      apply in_map_iff in Hj as [kv [Hb Hin]]. subst b.
      unfold lower_bound in H1. rewrite forallb_forall in H1.
      apply H1. exact Hin.
    + apply (IH i j); [assumption..|lia].
Qed.

(** ** Queries *)

Lemma with_data_same (e : LDAPEntry) : with_data e (_data e) = e.
Proof. destruct e; reflexivity. Qed.

(** X1.  GetKeys lists exactly the keys of [_data], each once, in strictly
    increasing byte order. *)
Theorem GetKeys_sorted_without_duplicates (e : LDAPEntry) :
  wf e = true ->
  NoDup (GetKeys e) /\
  (forall a, In a (GetKeys e) <-> count a (_data e) = 1) /\
  (forall i j a b,
      nth_error (GetKeys e) i = Some a -> nth_error (GetKeys e) j = Some b ->
      i < j -> String.ltb a b = true).
Proof.
  intros Hwf. apply wf_parts in Hwf as (Hd & _).
  rewrite GetKeys_keys. split; [apply sorted_keys_NoDup; exact Hd|]. split.
  - intros a. unfold count. split.
    + intros Hin. destruct (in_keys_find a (_data e) Hd Hin) as [v Hv].
      rewrite Hv. reflexivity.
    + destruct (find a (_data e)) as [v|] eqn:Hf; [|discriminate].
      intros _. eapply find_some_in_keys. exact Hf.
  - intros i j a b. apply sorted_keys_increasing. exact Hd.
Qed.

Lemma GetKeys_sorted_without_duplicates_witness :
  wf alice = true /\ GetKeys alice = ["cn"; "mail"] /\ NoDup (GetKeys alice).
Proof.
  split; [reflexivity|]. split; [reflexivity|].
  exact (proj1 (GetKeys_sorted_without_duplicates alice eq_refl)).
Defined.

(** X2.  GetValue changes no attribute's values: after the call every name,
    the queried one included, has the values it had before; and a second
    identical call changes nothing and returns the same values. *)
Theorem GetValue_keeps_values_and_is_idempotent (a : string) (e : LDAPEntry) :
  (forall b, values_of b (_data (fst (GetValue a e))) = values_of b (_data e)) /\
  GetValue a (fst (GetValue a e)) = GetValue a e /\
  _added (fst (GetValue a e)) = _added e /\
  _removed (fst (GetValue a e)) = _removed e.
Proof.
  unfold GetValue. rewrite subscript_spec.
  destruct (find a (_data e)) as [vs|] eqn:Hf; cbn [fst snd].
  - rewrite with_data_same. repeat split; try reflexivity.
    rewrite subscript_spec, Hf, with_data_same. reflexivity.
  - simpl. repeat split; try reflexivity.
    + intros b. unfold values_of.
      destruct (string_dec b a) as [->|Hne].
      * rewrite find_store_same, Hf. reflexivity.
      * rewrite find_store_other by exact Hne. reflexivity.
    + rewrite subscript_spec, find_store_same. reflexivity.
Qed.

Lemma GetFirstValue_spec (a : string) (e : LDAPEntry) :
  GetFirstValue a e =
  match find a (_data e) with
  | None => Some (e, "")
  | Some [] => None
  | Some (x :: _) => Some (e, x)
  end.
Proof.
  unfold GetFirstValue.
  destruct (find a (_data e)) as [vs|] eqn:Hf; [|reflexivity].
  rewrite subscript_spec, Hf.
  destruct vs; [reflexivity|]. rewrite with_data_same. reflexivity.
Qed.

(** X3.  The three cases of GetFirstValue: the empty string for a name that
    is not a key, the first stored value for a key with values, and an
    undefined front() for a key whose vector is empty; in the two defined
    cases the record is left as it was. *)
Theorem GetFirstValue_cases (a : string) (e : LDAPEntry) :
  (find a (_data e) = None /\ GetFirstValue a e = Some (e, "")) \/
  (exists x rest, find a (_data e) = Some (x :: rest) /\
                  GetFirstValue a e = Some (e, x)) \/
  (find a (_data e) = Some [] /\ GetFirstValue a e = None).
Proof.
  rewrite GetFirstValue_spec.
  destruct (find a (_data e)) as [[|x rest]|].
  - right. right. split; reflexivity.
  - right. left. exists x, rest. split; reflexivity.
  - left. split; reflexivity.
Qed.

(** X4.  Right after AddValue(a, v), GetFirstValue(a) is defined, leaves the
    record alone and returns the first value a already had, or v when it
    had none. *)
Theorem GetFirstValue_after_AddValue (a v : string) (e : LDAPEntry) :
  GetFirstValue a (AddValue a v e) =
  Some (AddValue a v e, hd v (values_of a (_data e))).
Proof.
  rewrite GetFirstValue_spec, AddValue_data, find_store_same.
  destruct (values_of a (_data e)); reflexivity.
Qed.

(** X5.  AddValue(a, v) touches attribute a only: the values and staged
    additions of any other name, the whole of toRemove, the DN and the
    isNew flag are unchanged, and GetKeys gains at most a. *)
Theorem AddValue_frame (a v b : string) (e : LDAPEntry) :
  b <> a ->
  values_of b (_data (AddValue a v e)) = values_of b (_data e) /\
  staged b (_added (AddValue a v e)) = staged b (_added e) /\
  _removed (AddValue a v e) = _removed e /\
  GetDN (AddValue a v e) = GetDN e /\
  _isnew (AddValue a v e) = _isnew e /\
  (In b (GetKeys (AddValue a v e)) <-> In b (GetKeys e)).
Proof.
  intros Hne. rewrite !GetKeys_keys, AddValue_data, AddValue_added.
  unfold values_of, staged, ptr in *. rewrite !find_store_other by exact Hne.
  repeat split; try reflexivity.
  - unfold AddValue. destruct (subscript [] a (_data e)); reflexivity.
  - unfold AddValue, GetDN. destruct (subscript [] a (_data e)); reflexivity.
  - unfold AddValue. destruct (subscript [] a (_data e)); reflexivity.
  - intros H. apply keys_store in H as [H|H]; [contradiction|exact H].
  - intros H. apply keys_store. right. exact H.
Qed.

Lemma AddValue_frame_witness :
  "mail" <> "cn" /\
  values_of "mail" (_data (AddValue "cn" "Al" alice)) = ["a@x.com"; "a2@x.com"].
Proof.
  split; [discriminate|].
  exact (proj1 (AddValue_frame "cn" "Al" "mail" alice ltac:(discriminate))).
Defined.

(** ** Hydration *)

Lemma fold_store_keys (l : list (string * list string))
    (d : StdMap.t (list string)) (a : string) :
  In a (keys (fold_left (fun d av => store (fst av) (snd av) d) l d)) <->
  In a (map fst l) \/ In a (keys d).
Proof.
  revert d. induction l as [|[k vs] l IH]; intros d; simpl.
  - tauto.
  - rewrite IH, keys_store. intuition congruence.
Qed.

Lemma fold_store_other (l : list (string * list string))
    (d : StdMap.t (list string)) (a : string) :
  ~ In a (map fst l) ->
  find a (fold_left (fun d av => store (fst av) (snd av) d) l d) = find a d.
Proof.
  revert d. induction l as [|[k vs] l IH]; intros d Hnin; simpl.
  - reflexivity.
  - simpl in Hnin. rewrite IH by tauto.
    apply find_store_other. intros ->. tauto.
Qed.

Lemma fold_store_find (l : list (string * list string))
    (d : StdMap.t (list string)) (a : string) (vs : list string) :
  NoDup (map fst l) -> In (a, vs) l ->
  find a (fold_left (fun d av => store (fst av) (snd av) d) l d) = Some vs.
Proof.
  revert d. induction l as [|[k ws] l IH]; intros d Hnd Hin; simpl.
  - contradiction.
  - simpl in Hnd. inversion Hnd as [|? ? Hk Hnd']; subst.
    destruct Hin as [Heq|Hin].
    + inversion Heq; subst. rewrite fold_store_other by exact Hk.
      apply find_store_same.
    + apply IH; assumption.
Qed.

(** X6.  A record read from a message with distinct attribute names gives
    back what the message held: GetKeys lists exactly those names,
    GetValue returns each attribute's values in order without changing
    the record, and a name the message lacks has no values.  The record
    is not new and has nothing staged. *)
Theorem LDAPEntry_of_message_round_trip (entry : LDAPMessage) :
  NoDup (map fst (msg_attributes entry)) ->
  let e := LDAPEntry_of_message entry in
  (forall a, In a (GetKeys e) <-> In a (map fst (msg_attributes entry))) /\
  (forall a vs, In (a, vs) (msg_attributes entry) -> GetValue a e = (e, vs)) /\
  (forall a, ~ In a (map fst (msg_attributes entry)) ->
             snd (GetValue a e) = []) /\
  GetDN e = msg_dn entry /\ _isnew e = false /\ HasPendingChanges e = false.
Proof.
  intros Hnd. cbv zeta. repeat split; try reflexivity.
  - rewrite GetKeys_keys. simpl. intros H.
    apply fold_store_keys in H as [H|H]; [exact H|contradiction].
  - rewrite GetKeys_keys. simpl. intros H.
    apply fold_store_keys. left. exact H.
  - intros a vs Hin. unfold GetValue. rewrite subscript_spec. simpl.
    rewrite (fold_store_find _ _ a vs Hnd Hin). reflexivity.
  - intros a Hnin. unfold GetValue. rewrite subscript_spec. simpl.
    rewrite (fold_store_other _ _ a Hnin). reflexivity.
Qed.

Lemma LDAPEntry_of_message_round_trip_witness :
  NoDup (map fst (msg_attributes alice_message)) /\
  GetValue "mail" alice = (alice, ["a@x.com"; "a2@x.com"]).
Proof.
  assert (Hnd : NoDup (map fst (msg_attributes alice_message))).
  { simpl. repeat constructor; simpl; intuition discriminate. }
  split; [exact Hnd|].
  apply (proj1 (proj2 (LDAPEntry_of_message_round_trip alice_message Hnd))).
  simpl. left. reflexivity.
Defined.

(** ** Removals *)

Lemma staged_push_back_at (a b x : string) (m : StdMap.t ptr) :
  staged b (push_back_at a x m) =
  if string_dec b a then staged a m ++ [x] else staged b m.
Proof.
  rewrite push_back_at_spec.
  destruct (string_dec b a) as [->|Hne].
  - apply staged_store.
  - unfold staged, ptr in *. rewrite find_store_other by exact Hne.
    reflexivity.
Qed.

Lemma fold_matching_staged (a v b : string) (vs : list string)
    (r : StdMap.t ptr) :
  staged b
    (fold_left (fun r x =>
                  match String.compare x v with
                  | Eq => push_back_at a v r
                  | _ => r
                  end) vs r) =
  if string_dec b a
  then staged a r ++ repeat v (count_occ string_dec vs v)
  else staged b r.
Proof.
  revert r. induction vs as [|x vs IH]; intros r; simpl.
  - destruct (string_dec b a) as [->|]; [rewrite app_nil_r|]; reflexivity.
  - destruct (String.compare x v) eqn:E.
    + apply String.compare_eq_iff in E. subst x.
      rewrite IH, !staged_push_back_at.
      destruct (string_dec v v); [|congruence].
      destruct (string_dec b a) as [->|Hne].
      * destruct (string_dec a a); [|congruence].
        simpl. rewrite <- app_assoc. reflexivity.
      * reflexivity.
    + rewrite IH. destruct (string_dec x v) as [->|]; [|reflexivity].
      rewrite compare_refl in E. discriminate.
    + rewrite IH. destruct (string_dec x v) as [->|]; [|reflexivity].
      rewrite compare_refl in E. discriminate.
Qed.

Lemma fold_matching_none (a v : string) (vs : list string) (r : StdMap.t ptr) :
  ~ In v vs ->
  fold_left (fun r x =>
               match String.compare x v with
               | Eq => push_back_at a v r
               | _ => r
               end) vs r = r.
Proof.
  revert r. induction vs as [|x vs IH]; intros r Hnin; simpl; [reflexivity|].
  simpl in Hnin. destruct (String.compare x v) eqn:E.
  - apply String.compare_eq_iff in E. tauto.
  - apply IH. tauto.
  - apply IH. tauto.
Qed.

Lemma fold_all_staged (a b : string) (vs : list string) (r : StdMap.t ptr) :
  staged b (fold_left (fun r x => push_back_at a x r) vs r) =
  if string_dec b a then staged a r ++ vs else staged b r.
Proof.
  revert r. induction vs as [|x vs IH]; intros r; simpl.
  - destruct (string_dec b a) as [->|]; [rewrite app_nil_r|]; reflexivity.
  - rewrite IH, !staged_push_back_at.
    destruct (string_dec b a) as [->|Hne].
    + destruct (string_dec a a); [|congruence].
      rewrite <- app_assoc. reflexivity.
    + reflexivity.
Qed.

(** X7.  RemoveValue(a, v) stages v in toRemove[a] once for each occurrence of
    v among the current values of a, after whatever was staged there; the
    staged removals of other names and the whole of toAdd are untouched. *)
Theorem RemoveValue_stages_each_occurrence (a v : string) (e : LDAPEntry) :
  staged a (_removed (RemoveValue a v e)) =
    staged a (_removed e)
    ++ repeat v (count_occ string_dec (values_of a (_data e)) v) /\
  (forall b, b <> a ->
             staged b (_removed (RemoveValue a v e)) = staged b (_removed e)) /\
  _added (RemoveValue a v e) = _added e.
Proof.
  unfold RemoveValue, count, values_of.
  destruct (find a (_data e)) as [vs|] eqn:Hf; simpl.
  - rewrite subscript_spec, Hf. rewrite subscript_spec, Hf. simpl.
    repeat split.
    + rewrite fold_matching_staged.
      destruct (string_dec a a); [reflexivity|congruence].
    + intros b Hne. rewrite fold_matching_staged.
      destruct (string_dec b a); [contradiction|reflexivity].
  - rewrite app_nil_r. repeat split; reflexivity.
Qed.

(** X8.  RemoveValue(a, v) leaves the whole record exactly as it was when v
    is not among the values of a, provided a is not a key with an empty
    vector (such a key is erased). *)
Theorem RemoveValue_of_absent_value (a v : string) (e : LDAPEntry) :
  find a (_data e) <> Some [] ->
  ~ In v (values_of a (_data e)) ->
  RemoveValue a v e = e.
Proof.
  unfold RemoveValue, count, values_of.
  destruct (find a (_data e)) as [vs|] eqn:Hf; simpl; [|reflexivity].
  intros Hne Hnin.
  rewrite subscript_spec, Hf. rewrite subscript_spec, Hf.
  rewrite (fold_matching_none a v vs _ Hnin).
  destruct vs; [congruence|]. destruct e; reflexivity.
Qed.

Lemma RemoveValue_of_absent_value_witness :
  find "cn" (_data alice) <> Some [] /\
  ~ In "bob" (values_of "cn" (_data alice)) /\
  RemoveValue "cn" "bob" alice = alice.
Proof.
  assert (H1 : find "cn" (_data alice) <> Some []) by discriminate.
  assert (H2 : ~ In "bob" (values_of "cn" (_data alice))).
  { simpl. intuition discriminate. }
  split; [exact H1|]. split; [exact H2|].
  exact (RemoveValue_of_absent_value "cn" "bob" alice H1 H2).
Defined.

(** X9.  RemoveValue(a, v) changes no attribute's current values: every
    name, a included, has after the call the values it had before, and
    GetKeys lists no name it did not list before. *)
Theorem RemoveValue_changes_no_values (a v : string) (e : LDAPEntry) :
  wf e = true ->
  (forall b, values_of b (_data (RemoveValue a v e)) = values_of b (_data e)) /\
  (forall b, In b (GetKeys (RemoveValue a v e)) -> In b (GetKeys e)).
Proof.
  intros Hwf. pose proof Hwf as Hw. apply wf_parts in Hw as (Hd & _).
  rewrite !GetKeys_keys, RemoveValue_data.
  destruct (find a (_data e)) as [[|x vs]|] eqn:Hf; try (split; auto; fail).
  split.
  - intros b. unfold values_of. destruct (string_dec b a) as [->|Hne].
    + rewrite find_erase_same by exact Hd. rewrite Hf. reflexivity.
    + rewrite find_erase_other by assumption. reflexivity.
  - intros b Hin.
    assert (Hs : sorted (erase a (_data e)) = true)
      by (apply sorted_erase; exact Hd).
    destruct (in_keys_find b _ Hs Hin) as [ws Hws].
    destruct (string_dec b a) as [->|Hne].
    + rewrite find_erase_same in Hws by exact Hd. discriminate.
    + rewrite find_erase_other in Hws by assumption.
      eapply find_some_in_keys. exact Hws.
Qed.

Lemma RemoveValue_changes_no_values_witness :
  wf alice = true /\
  values_of "mail" (_data (RemoveValue "mail" "a@x.com" alice))
    = ["a@x.com"; "a2@x.com"].
Proof.
  split; [reflexivity|].
  exact (proj1 (RemoveValue_changes_no_values "mail" "a@x.com" alice eq_refl)
           "mail").
Defined.

Lemma erase_absent {V : Type} (k : string) (m : StdMap.t V) :
  find k m = None -> erase k m = m.
Proof.
  induction m as [|[k' v'] m IH]; simpl; [reflexivity|].
  destruct (String.compare k k'); intros H.
  - discriminate.
  - reflexivity.
  - rewrite (IH H). reflexivity.
Qed.

Lemma RemoveAllValues_data (a : string) (e : LDAPEntry) :
  _data (RemoveAllValues a e) = erase a (_data e).
Proof.
  unfold RemoveAllValues, count.
  destruct (find a (_data e)) as [vs|] eqn:Hf; simpl.
  - rewrite subscript_spec, Hf. reflexivity.
  - symmetry. apply erase_absent. exact Hf.
Qed.

(** X10.  RemoveAllValues(a) takes a out of CurrentState (GetKeys no longer
    lists it) and stages every value a had, in order, behind what
    toRemove[a] already held; the values and staged removals of every
    other name, and the whole of toAdd, are untouched. *)
Theorem RemoveAllValues_stages_all_and_erases (a : string) (e : LDAPEntry) :
  wf e = true ->
  let e' := RemoveAllValues a e in
  ~ In a (GetKeys e') /\
  staged a (_removed e') = staged a (_removed e) ++ values_of a (_data e) /\
  (forall b, b <> a ->
             values_of b (_data e') = values_of b (_data e) /\
             staged b (_removed e') = staged b (_removed e)) /\
  _added e' = _added e.
Proof.
  intros Hwf. cbv zeta.
  pose proof (wf_RemoveAllValues a e Hwf) as Hwf'.
  apply wf_parts in Hwf' as (Hd' & _).
  pose proof Hwf as Hw. apply wf_parts in Hw as (Hd & _).
  split.
  { rewrite GetKeys_keys. apply find_none_not_in_keys; [exact Hd'|].
    apply RemoveAllValues_erases. exact Hwf. }
  assert (Hst : forall b,
             staged b (_removed (RemoveAllValues a e)) =
             if string_dec b a
             then staged a (_removed e) ++ values_of a (_data e)
             else staged b (_removed e)).
  { intros b. unfold RemoveAllValues, count, values_of.
    destruct (find a (_data e)) as [vs|] eqn:Hf; simpl.
    - rewrite subscript_spec, Hf. simpl. apply fold_all_staged.
    - rewrite app_nil_r. destruct (string_dec b a) as [->|]; reflexivity. }
  split; [|split].
  - rewrite Hst. destruct (string_dec a a); [reflexivity|congruence].
  - intros b Hne. split.
    + unfold values_of. rewrite RemoveAllValues_data.
      rewrite find_erase_other by assumption. reflexivity.
    + rewrite Hst. destruct (string_dec b a); [contradiction|reflexivity].
  - unfold RemoveAllValues.
    destruct (Nat.eqb (count a (_data e)) 0); [reflexivity|].
    destruct (subscript [] a (_data e)); reflexivity.
Qed.

Lemma RemoveAllValues_stages_all_and_erases_witness :
  wf alice = true /\
  GetKeys (RemoveAllValues "mail" alice) = ["cn"] /\
  staged "mail" (_removed (RemoveAllValues "mail" alice))
    = ["a@x.com"; "a2@x.com"].
Proof.
  split; [reflexivity|]. split; [reflexivity|].
  exact (proj1 (proj2
           (RemoveAllValues_stages_all_and_erases "mail" alice eq_refl))).
Defined.

(** ** More about Sync *)

(** X11.  With nothing staged Sync still sends one request: a create or a
    modify, by the isNew flag, whose batch is empty. *)
Theorem Sync_with_empty_delta_sends_empty_batch
    (ldap : LDAPCall -> Z) (e : LDAPEntry) :
  empty (_added e) = true ->
  empty (_removed e) = true ->
  exists call,
    Sync ldap e = Some (e, call, result_of (ldap call)) /\
    call = (if _isnew e then ldap_add_ext_s (c_str (_dn e)) []
            else ldap_modify_ext_s (c_str (_dn e)) []).
Proof.
  destruct e as [dn isnew d a r]; simpl.
  destruct a; [|discriminate]. destruct r; [|discriminate]. intros _ _.
  eexists. split; [|reflexivity].
  unfold Sync; simpl. destruct isnew; reflexivity.
Qed.

Lemma Sync_with_empty_delta_sends_empty_batch_witness :
  empty (_added alice) = true /\ empty (_removed alice) = true /\
  Sync ldap_accepts alice
    = Some (alice, ldap_modify_ext_s "uid=alice,ou=people" [], Returned).
Proof.
  split; [reflexivity|]. split; [reflexivity|].
  destruct (Sync_with_empty_delta_sends_empty_batch ldap_accepts alice
              eq_refl eq_refl) as [call [Hs Hc]].
  rewrite Hs, Hc. reflexivity.
Defined.

(** X12.  Whatever the directory answered, a second Sync sends the very same
    request again: nothing of the batch is consumed by the first. *)
Theorem Sync_twice_sends_the_same_request
    (ldap ldap' : LDAPCall -> Z) (e e1 : LDAPEntry) (call : LDAPCall)
    (r : SyncResult) :
  wf e = true ->
  Sync ldap e = Some (e1, call, r) ->
  Sync ldap' e1 = Some (e1, call, result_of (ldap' call)).
Proof.
  intros Hwf H1. rewrite (Sync_spec ldap e Hwf) in H1.
  inversion H1; subst. apply Sync_spec. exact Hwf.
Qed.

Lemma Sync_twice_sends_the_same_request_witness :
  wf bob_new = true /\
  Sync ldap_accepts bob_new = Some (bob_new, request bob_new, Returned) /\
  Sync ldap_rejects bob_new = Some (bob_new, request bob_new, Threw 68).
Proof.
  split; [reflexivity|]. split; [reflexivity|].
  exact (Sync_twice_sends_the_same_request ldap_accepts ldap_rejects
           bob_new bob_new (request bob_new) Returned eq_refl eq_refl).
Defined.


Lemma c_str_of_nul_free (s : string) : nul_free s = true -> c_str s = s.
Proof.
  induction s as [|c s IH]; simpl; [reflexivity|].
  destruct (Ascii.eqb c Ascii.zero); simpl; [discriminate|].
  intros H. rewrite (IH H). reflexivity.
Qed.

Lemma c_str_prefix (s : string) : String.prefix (c_str s) s = true.
Proof.
  induction s as [|c s IH]; simpl; [reflexivity|].
  destruct (Ascii.eqb c Ascii.zero); simpl; [reflexivity|].
  destruct (Ascii.ascii_dec c c); [exact IH|congruence].
Qed.


Lemma map_c_str_of_nul_free (vs : list string) :
  forallb nul_free vs = true -> map c_str vs = vs.
Proof.
  induction vs as [|v vs IH]; simpl; [reflexivity|].
  intros H. apply andb_true_iff in H as [H1 H2].
  rewrite (c_str_of_nul_free v H1), (IH H2). reflexivity.
Qed.



Lemma map_mod_of_nul_free (op : mod_op_t) (m : StdMap.t ptr) :
  delta_nul_free m = true ->
  map (mod_of op) m =
  map (fun kv => {| mod_op := op; mod_type := fst kv;
                    modv_strvals := vector (snd kv) |}) m.
Proof.
  induction m as [|[k p] m IH]; simpl; [reflexivity|].
  intros H. apply andb_true_iff in H as [H1 H2].
  apply andb_true_iff in H1 as [Hk Hv].
  rewrite (IH H2). unfold mod_of, vector. simpl.
  rewrite (c_str_of_nul_free _ Hk), (map_c_str_of_nul_free _ Hv).
  reflexivity.
Qed.

(** X14.  When no staged name or value holds a NUL byte, the batch carries the
    staged names and values as they are: one DELETE per key of toRemove
    with all its values, then one ADD per key of toAdd with all its
    values. *)
Theorem Sync_sends_NUL_free_delta_intact
    (ldap : LDAPCall -> Z) (e e' : LDAPEntry) (call : LDAPCall)
    (r : SyncResult) :
  wf e = true ->
  delta_nul_free (_removed e) = true ->
  delta_nul_free (_added e) = true ->
  Sync ldap e = Some (e', call, r) ->
  call_mods call =
    map (fun kv => {| mod_op := LDAP_MOD_DELETE; mod_type := fst kv;
                      modv_strvals := vector (snd kv) |}) (_removed e)
    ++ map (fun kv => {| mod_op := LDAP_MOD_ADD; mod_type := fst kv;
                         modv_strvals := vector (snd kv) |}) (_added e).
Proof.
  intros Hwf Hr Ha H. rewrite (Sync_spec ldap e Hwf) in H. inversion H; subst.
  rewrite call_mods_request. unfold delta_mods.
  rewrite (map_mod_of_nul_free _ _ Hr), (map_mod_of_nul_free _ _ Ha).
  reflexivity.
Qed.

Lemma Sync_sends_NUL_free_delta_intact_witness :
  wf bob_edited = true /\
  delta_nul_free (_removed bob_edited) = true /\
  delta_nul_free (_added bob_edited) = true /\
  call_mods (request bob_edited) =
    [ {| mod_op := LDAP_MOD_DELETE; mod_type := "cn";
         modv_strvals := ["Bob"; "Robert"] |};
      {| mod_op := LDAP_MOD_ADD; mod_type := "cn";
         modv_strvals := ["Bobby"] |} ].
Proof.
  split; [reflexivity|]. split; [reflexivity|]. split; [reflexivity|].
  exact (Sync_sends_NUL_free_delta_intact ldap_accepts bob_edited bob_edited
           (request bob_edited) Returned eq_refl eq_refl eq_refl eq_refl).
Defined.

(** ** Sequences of calls *)

Lemma AddValue_dn (a v : string) (e : LDAPEntry) : _dn (AddValue a v e) = _dn e.
Proof. unfold AddValue. destruct (subscript [] a (_data e)); reflexivity. Qed.

Lemma nonempty_vectors_store (k : string) (vs : list string)
    (d : StdMap.t (list string)) :
  vs <> [] -> nonempty_vectors d = true ->
  nonempty_vectors (store k vs d) = true.
Proof.
  intros Hvs. induction d as [|[k' ws] d IH]; simpl.
  - destruct vs; [congruence|reflexivity].
  - intros H. apply andb_true_iff in H as [H1 H2].
    destruct (String.compare k k'); simpl.
    + rewrite H2. destruct vs; [congruence|reflexivity].
    + rewrite H1, H2. destruct vs; [congruence|reflexivity].
    + rewrite H1. apply IH. exact H2.
Qed.

Lemma nonempty_vectors_erase (k : string) (d : StdMap.t (list string)) :
  nonempty_vectors d = true -> nonempty_vectors (erase k d) = true.
Proof.
  induction d as [|[k' ws] d IH]; simpl; [reflexivity|].
  intros H. apply andb_true_iff in H as [H1 H2].
  destruct (String.compare k k'); simpl.
  - exact H2.
  - rewrite H1. exact H2.
  - rewrite H1. apply IH. exact H2.
Qed.

Lemma nonempty_vectors_find (k : string) (vs : list string)
    (d : StdMap.t (list string)) :
  nonempty_vectors d = true -> find k d = Some vs -> vs <> [].
Proof.
  intros Hne Hf. apply find_some_in in Hf.
  unfold nonempty_vectors in Hne. rewrite forallb_forall in Hne.
  specialize (Hne _ Hf). simpl in Hne. destruct vs; congruence.
Qed.

Lemma RemoveValue_dn_isnew (a v : string) (e : LDAPEntry) :
  _dn (RemoveValue a v e) = _dn e /\ _isnew (RemoveValue a v e) = _isnew e.
Proof.
  unfold RemoveValue.
  destruct (Nat.eqb (count a (_data e)) 0); [split; reflexivity|].
  destruct (subscript [] a (_data e)) as [d vs].
  destruct (subscript [] a d). split; reflexivity.
Qed.

Lemma RemoveAllValues_dn_isnew (a : string) (e : LDAPEntry) :
  _dn (RemoveAllValues a e) = _dn e /\ _isnew (RemoveAllValues a e) = _isnew e.
Proof.
  unfold RemoveAllValues.
  destruct (Nat.eqb (count a (_data e)) 0); [split; reflexivity|].
  destruct (subscript [] a (_data e)). split; reflexivity.
Qed.

Lemma step_keeps_invariant (ldap : LDAPCall -> Z) (c : method)
    (e e' : LDAPEntry) :
  wf e = true -> step ldap c e = Some e' ->
  wf e' = true /\ _dn e' = _dn e /\ _isnew e' = _isnew e.
Proof.
  intros Hwf. destruct c; simpl.
  - intros H; inversion H; subst. auto.
  - intros H; inversion H; subst. auto.
  - intros H; inversion H; subst. split; [apply wf_GetValue; exact Hwf|].
    unfold GetValue. destruct (subscript [] attribute (_data e)).
    split; reflexivity.
  - rewrite GetFirstValue_spec.
    destruct (find attribute (_data e)) as [[|x vs]|];
      intros H; inversion H; subst; auto.
  - intros H; inversion H; subst. split; [apply wf_AddValue; exact Hwf|].
    split; [apply AddValue_dn|].
    unfold AddValue. destruct (subscript [] attribute (_data e)); reflexivity.
  - intros H; inversion H; subst. split; [apply wf_RemoveValue; exact Hwf|].
    apply RemoveValue_dn_isnew.
  - intros H; inversion H; subst. split; [apply wf_RemoveAllValues; exact Hwf|].
    apply RemoveAllValues_dn_isnew.
  - rewrite (Sync_spec ldap e Hwf). intros H; inversion H; subst. auto.
Qed.

(** X17.  Whatever methods are called on a record, in whatever order, the
    class invariant holds afterwards (maps ordered, no null slot in
    either delta map) and neither the DN nor the isNew flag has changed:
    GetDN returns the DN of construction. *)
Theorem run_keeps_invariant_dn_and_flag (ldap : LDAPCall -> Z)
    (cs : list method) (e0 e : LDAPEntry) :
  wf e0 = true ->
  run ldap cs e0 = Some e ->
  wf e = true /\ GetDN e = GetDN e0 /\ _isnew e = _isnew e0.
Proof.
  revert e0. induction cs as [|c cs IH]; intros e0 Hwf; simpl.
  - intros H; inversion H; subst. auto.
  - destruct (step ldap c e0) as [e1|] eqn:Hs; [|discriminate].
    destruct (step_keeps_invariant ldap c e0 e1 Hwf Hs) as (Hwf1 & Hdn & Hnew).
    intros H. destruct (IH e1 Hwf1 H) as (Hwf' & Hdn' & Hnew').
    unfold GetDN in *. repeat split; congruence.
Qed.

Lemma run_keeps_invariant_dn_and_flag_witness :
  wf (LDAPEntry_new "uid=bob,ou=people") = true /\
  run ldap_rejects
      [CallAddValue "cn" "Bob"; CallSync; CallRemoveAllValues "cn";
       CallGetValue "mail"; CallSync; CallGetFirstValue "cn"]
      (LDAPEntry_new "uid=bob,ou=people")
    = Some (fst (GetValue "mail" bob_retracted)) /\
  GetDN (fst (GetValue "mail" bob_retracted)) = "uid=bob,ou=people".
Proof.
  split; [reflexivity|]. split; [reflexivity|].
  exact (proj1 (proj2
    (run_keeps_invariant_dn_and_flag ldap_rejects
       [CallAddValue "cn" "Bob"; CallSync; CallRemoveAllValues "cn";
        CallGetValue "mail"; CallSync; CallGetFirstValue "cn"]
       (LDAPEntry_new "uid=bob,ou=people")
       (fst (GetValue "mail" bob_retracted)) eq_refl eq_refl))).
Defined.

(** X18.  GetFirstValue is the only method that can be undefined: every
    sequence of calls without it runs to the end, Sync included. *)
Theorem run_without_GetFirstValue_is_defined (ldap : LDAPCall -> Z)
    (cs : list method) (e0 : LDAPEntry) :
  wf e0 = true ->
  forallb (fun c => negb (is_GetFirstValue c)) cs = true ->
  exists e, run ldap cs e0 = Some e.
Proof.
  revert e0. induction cs as [|c cs IH]; intros e0 Hwf Hcs; simpl.
  - eexists; reflexivity.
  - simpl in Hcs. apply andb_true_iff in Hcs as [Hc Hcs].
    assert (Hs : exists e1, step ldap c e0 = Some e1).
    { destruct c; simpl; try (eexists; reflexivity); [discriminate|].
      rewrite (Sync_spec ldap e0 Hwf). eexists; reflexivity. }
    destruct Hs as [e1 Hs]. rewrite Hs.
    apply IH; [|exact Hcs].
    apply (step_keeps_invariant ldap c e0 e1 Hwf Hs).
Qed.

Lemma run_without_GetFirstValue_is_defined_witness :
  wf alice = true /\
  exists e,
    run ldap_accepts
        [CallGetValue "sn"; CallRemoveValue "sn" "x"; CallAddValue "cn" "Al";
         CallSync; CallGetKeys] alice = Some e.
Proof.
  split; [reflexivity|].
  apply (run_without_GetFirstValue_is_defined ldap_accepts); reflexivity.
Defined.

Lemma step_keeps_nonempty_vectors (ldap : LDAPCall -> Z) (c : method)
    (e : LDAPEntry) :
  wf e = true -> nonempty_vectors (_data e) = true ->
  is_GetValue c = false ->
  exists e', step ldap c e = Some e' /\ nonempty_vectors (_data e') = true.
Proof.
  intros Hwf Hne Hc. destruct c; simpl; try discriminate.
  - eexists; split; [reflexivity|exact Hne].
  - eexists; split; [reflexivity|exact Hne].
  - rewrite GetFirstValue_spec.
    destruct (find attribute (_data e)) as [vs|] eqn:Hf.
    + pose proof (nonempty_vectors_find _ _ _ Hne Hf) as Hvs.
      destruct vs; [congruence|].
      eexists; split; [reflexivity|exact Hne].
    + eexists; split; [reflexivity|exact Hne].
  - eexists; split; [reflexivity|].
    rewrite AddValue_data. apply nonempty_vectors_store; [|exact Hne].
    destruct (values_of attribute (_data e)); discriminate.
  - eexists; split; [reflexivity|].
    rewrite RemoveValue_data.
    destruct (find attribute (_data e)) as [[|x vs]|]; try exact Hne.
    apply nonempty_vectors_erase. exact Hne.
  - eexists; split; [reflexivity|].
    rewrite RemoveAllValues_data. apply nonempty_vectors_erase. exact Hne.
  - rewrite (Sync_spec ldap e Hwf). eexists; split; [reflexivity|exact Hne].
Qed.

(** X19.  On a record in which every key holds a value (a new record, or one
    read from a message without empty attributes), no sequence of calls
    without GetValue is ever undefined, GetFirstValue included, and every
    name GetKeys lists afterwards still holds at least one value. *)
Theorem run_without_GetValue_is_defined (ldap : LDAPCall -> Z)
    (cs : list method) (e0 : LDAPEntry) :
  wf e0 = true ->
  nonempty_vectors (_data e0) = true ->
  forallb (fun c => negb (is_GetValue c)) cs = true ->
  exists e,
    run ldap cs e0 = Some e /\
    forall a, In a (GetKeys e) -> values_of a (_data e) <> [].
Proof.
  revert e0. induction cs as [|c cs IH]; intros e0 Hwf Hne Hcs; simpl.
  - exists e0. split; [reflexivity|].
    intros a Hin. rewrite GetKeys_keys in Hin.
    apply wf_parts in Hwf as (Hd & _).
    destruct (in_keys_find a (_data e0) Hd Hin) as [vs Hf].
    unfold values_of. rewrite Hf.
    apply (nonempty_vectors_find _ _ _ Hne Hf).
  - simpl in Hcs. apply andb_true_iff in Hcs as [Hc Hcs].
    apply negb_true_iff in Hc.
    destruct (step_keeps_nonempty_vectors ldap c e0 Hwf Hne Hc)
      as [e1 [Hs Hne1]].
    rewrite Hs. apply IH; [|exact Hne1|exact Hcs].
    apply (step_keeps_invariant ldap c e0 e1 Hwf Hs).
Qed.

Lemma run_without_GetValue_is_defined_witness :
  wf alice = true /\ nonempty_vectors (_data alice) = true /\
  exists e,
    run ldap_accepts
        [CallGetFirstValue "sn"; CallAddValue "sn" "A"; CallGetFirstValue "sn";
         CallRemoveAllValues "cn"; CallGetFirstValue "cn"; CallSync] alice
      = Some e /\
    forall a, In a (GetKeys e) -> values_of a (_data e) <> [].
Proof.
  split; [reflexivity|]. split; [reflexivity|].
  apply (run_without_GetValue_is_defined ldap_accepts); reflexivity.
Defined.
